(** * The to-do list client ([frontend/src/App.vue]): local state and
      remote calls

    The component keeps a list of task objects, the draft of the "add" input
    and the edit session, and talks to a remote collection through four
    requests.  Every [async] handler of the script runs synchronously up to
    its single [await], where it has issued one request, and is resumed when
    that request settles; other handlers may run in between.  The embedding
    keeps that shape: a handler returns a [Run], which is either finished or
    suspended on a request together with the continuation that is applied,
    to the state of that later moment, once the request has settled.

    Task objects are JavaScript objects: the handlers receive the very
    objects that sit in the list and mutate them in place, so the state
    holds an object store and the list holds references into it. *)

From Stdlib Require Import ZArith NArith Lia.
From stdpp Require Import base option list numbers strings relations.

Set Default Proof Using "Type".

(** ** Strings *)

(** A JavaScript string is a sequence of UTF-16 code units. *)
Abbreviation CodeUnit := N (only parsing).
Abbreviation JsString := (list N) (only parsing).

(** String literals of the examples (one code unit per character). *)
Definition js (s : string) : JsString :=
  map (fun a => N.of_nat (Ascii.nat_of_ascii a)) (String.list_ascii_of_string s).

(** ECMAScript [WhiteSpace]: TAB, VT, FF, ZWNBSP and the space separators. *)
Definition WhiteSpace (c : CodeUnit) : bool :=
  (c =? 0x0009)%N || (c =? 0x000B)%N || (c =? 0x000C)%N || (c =? 0xFEFF)%N
  || (c =? 0x0020)%N || (c =? 0x00A0)%N || (c =? 0x1680)%N
  || ((0x2000 <=? c)%N && (c <=? 0x200A)%N)
  || (c =? 0x202F)%N || (c =? 0x205F)%N || (c =? 0x3000)%N.

(** ECMAScript [LineTerminator]: LF, CR, LS, PS. *)
Definition LineTerminator (c : CodeUnit) : bool :=
  (c =? 0x000A)%N || (c =? 0x000D)%N || (c =? 0x2028)%N || (c =? 0x2029)%N.

(** What [String.prototype.trim] strips. *)
Definition strippable (c : CodeUnit) : bool := WhiteSpace c || LineTerminator c.

Fixpoint trimStart (s : JsString) : JsString :=
  match s with
  | [] => []
  | c :: s' => if strippable c then trimStart s' else s
  end.

Definition trimEnd (s : JsString) : JsString := rev (trimStart (rev s)).

(** [s.trim()] *)
Definition trim (s : JsString) : JsString := trimEnd (trimStart s).

(** A title that is empty or made of white space only. *)
Definition blank (s : JsString) : bool := forallb strippable s.

(** ** Tasks and the component state *)

(** Server-assigned identifiers; the client only compares and forwards them. *)
Abbreviation Id := Z (only parsing).

(** The task record of the wire format; these are the fields the script
    reads or writes. *)
Module Task.
Record t := mk {
  id : Id;
  title : JsString;
  description : option JsString;   (* string | null *)
  is_completed : bool
}.

(** [todo.is_completed = b] *)
Definition set_is_completed (b : bool) (todo : t) : t :=
  {| id := id todo; title := title todo;
     description := description todo; is_completed := b |}.
End Task.

(** A reference to a task object: its index in the object store.  Objects
    are never freed, and a JavaScript reference always denotes an object:
    where a handler below looks up a reference, the [None] branch only makes
    the function total (see [wf] and [grows]). *)
Abbreviation Ref := nat (only parsing).

Record State := mkState {
  heap : list Task.t;              (* the task objects, by reference *)
  todos : list Ref;                (* todos.value *)
  newTaskTitle : JsString;         (* newTaskTitle.value *)
  editingTaskId : option Id;       (* editingTaskId.value, null = None *)
  editingTitle : JsString          (* editingTitle.value *)
}.

(** The state the script starts in. *)
Definition initial : State :=
  {| heap := []; todos := []; newTaskTitle := []; editingTaskId := None;
     editingTitle := [] |}.

Definition set_heap (h : list Task.t) (σ : State) : State :=
  {| heap := h; todos := todos σ; newTaskTitle := newTaskTitle σ;
     editingTaskId := editingTaskId σ; editingTitle := editingTitle σ |}.

Definition set_todos (l : list Ref) (σ : State) : State :=
  {| heap := heap σ; todos := l; newTaskTitle := newTaskTitle σ;
     editingTaskId := editingTaskId σ; editingTitle := editingTitle σ |}.

Definition set_newTaskTitle (s : JsString) (σ : State) : State :=
  {| heap := heap σ; todos := todos σ; newTaskTitle := s;
     editingTaskId := editingTaskId σ; editingTitle := editingTitle σ |}.

Definition set_editingTaskId (i : option Id) (σ : State) : State :=
  {| heap := heap σ; todos := todos σ; newTaskTitle := newTaskTitle σ;
     editingTaskId := i; editingTitle := editingTitle σ |}.

Definition set_editingTitle (s : JsString) (σ : State) : State :=
  {| heap := heap σ; todos := todos σ; newTaskTitle := newTaskTitle σ;
     editingTaskId := editingTaskId σ; editingTitle := s |}.

(** The objects behind a list of references. *)
Definition objects (h : list Task.t) (l : list Ref) : list Task.t :=
  omap (fun r => h !! r) l.

(** The tasks the list shows, in order. *)
Definition tasks (σ : State) : list Task.t := objects (heap σ) (todos σ).

(** ** Requests *)

(** Body of a PUT: [saveEdit] sends three fields, [toggleTodoStatus] sends
    the task object itself. *)
Inductive PutBody :=
| Fields (title : JsString) (description : option JsString) (is_completed : bool)
| Whole (todo : Task.t).

(** What a successful response carries in [response.data]. *)
Inductive Kind := TaskList | TaskRecord | NoContent.

Definition payload (K : Kind) : Type :=
  match K with
  | TaskList => list Task.t
  | TaskRecord => Task.t
  | NoContent => unit
  end.

(** A request, indexed by the kind of its response. *)
Inductive Request : Kind -> Type :=
| GET : Request TaskList
    (* axios.get(API_URL) *)
| POST (title : JsString) (is_completed : bool) : Request TaskRecord
    (* axios.post(API_URL, { title, is_completed }) *)
| PUT (id : Id) (body : PutBody) : Request TaskRecord
    (* axios.put(API_URL + id + '/', body) *)
| DELETE (id : Id) : Request NoContent.
    (* axios.delete(API_URL + id + '/') *)

(** How an awaited request settles: the promise is fulfilled with
    [response.data], or it is rejected and the [catch] block runs. *)
Inductive Settled (A : Type) :=
| Fulfilled (data : A)
| Rejected.
Arguments Fulfilled {A} data.
Arguments Rejected {A}.

(** The outcome of calling a handler. *)
Inductive Run :=
| Return (σ : State)
| Await {K : Kind} (σ : State) (req : Request K)
    (k : Settled (payload K) -> State -> State).

(** Has the call issued a request? *)
Definition sends (r : Run) : bool :=
  match r with
  | Return _ => false
  | Await _ _ _ => true
  end.

(** The state the call leaves behind when it returns or suspends. *)
Definition state_of (r : Run) : State :=
  match r with
  | Return σ => σ
  | Await σ _ _ => σ
  end.

(** ** The handlers of the script *)

(** [new Object]: a record that enters the component state gets a cell of
    its own at the end of the store. *)
Definition alloc (data : Task.t) (h : list Task.t) : Ref * list Task.t :=
  (length h, h ++ [data]).

(** *** 1. Add task *)

(** After [await axios.post(..)]. *)
Definition addTask_k (res : Settled Task.t) (σ : State) : State :=
  match res with
  | Fulfilled data =>
      let '(r, h) := alloc data (heap σ) in
      (* todos.value.push(response.data) *)
      let σ := set_todos (todos σ ++ [r]) (set_heap h σ) in
      (* newTaskTitle.value = '' *)
      set_newTaskTitle [] σ
  | Rejected => σ                       (* console.error *)
  end.

Definition addTask (σ : State) : Run :=
  (* if (newTaskTitle.value.trim() === '') return *)
  match trim (newTaskTitle σ) with
  | [] => Return σ
  | _ :: _ => Await σ (POST (newTaskTitle σ) false) addTask_k
  end.

(** *** 2. Delete task *)

(** [todo.id !== id], for the object behind a reference. *)
Definition id_differs (h : list Task.t) (id : Id) (r : Ref) : bool :=
  match h !! r with
  | Some todo => negb (Task.id todo =? id)%Z
  | None => true
  end.

(** After [await axios.delete(..)]. *)
Definition deleteTask_k (id : Id) (res : Settled unit) (σ : State) : State :=
  match res with
  | Fulfilled _ =>
      (* todos.value = todos.value.filter(todo => todo.id !== id) *)
      set_todos (List.filter (id_differs (heap σ) id) (todos σ)) σ
  | Rejected => σ                       (* console.error *)
  end.

(** [confirmed] is the answer the user gives to the [confirm] dialog. *)
Definition deleteTask (confirmed : bool) (id : Id) (σ : State) : Run :=
  (* if (!confirm(..)) return *)
  if negb confirmed then Return σ
  else Await σ (DELETE id) (deleteTask_k id).

(** *** 3. Edit task *)

Definition startEditing (todo : Ref) (σ : State) : State :=
  match heap σ !! todo with
  | Some t =>
      (* editingTaskId.value = todo.id *)
      let σ := set_editingTaskId (Some (Task.id t)) σ in
      (* editingTitle.value = todo.title *)
      set_editingTitle (Task.title t) σ
  | None => σ
  end.

Definition cancelEdit (σ : State) : State :=
  (* editingTaskId.value = null *)
  let σ := set_editingTaskId None σ in
  (* editingTitle.value = '' *)
  set_editingTitle [] σ.

(** [todos.value.findIndex(t => t.id === id)]; [None] is JavaScript's -1. *)
Fixpoint findIndex (h : list Task.t) (id : Id) (l : list Ref) : option nat :=
  match l with
  | [] => None
  | r :: l' =>
      match h !! r with
      | Some t => if (Task.id t =? id)%Z then Some 0 else S <$> findIndex h id l'
      | None => S <$> findIndex h id l'
      end
  end.

(** After [await axios.put(..)] in [saveEdit]. *)
Definition saveEdit_k (todo : Ref) (res : Settled Task.t) (σ : State) : State :=
  match res with
  | Fulfilled data =>
      match heap σ !! todo with
      | Some t =>
          let σ :=
            match findIndex (heap σ) (Task.id t) (todos σ) with
            | Some index =>
                (* todos.value[index] = response.data *)
                let '(r, h) := alloc data (heap σ) in
                set_todos (<[index := r]> (todos σ)) (set_heap h σ)
            | None => σ
            end in
          cancelEdit σ
      | None => σ
      end
  | Rejected => σ                       (* console.error *)
  end.

Definition saveEdit (todo : Ref) (σ : State) : Run :=
  match heap σ !! todo with
  | Some t =>
      Await σ
        (PUT (Task.id t)
           (Fields (editingTitle σ) (Task.description t) (Task.is_completed t)))
        (saveEdit_k todo)
  | None => Return σ
  end.

(** *** 4. Toggle status *)

(** After [await axios.put(..)] in [toggleTodoStatus]; [originalStatus] is
    the constant the call captured before it flipped the flag. *)
Definition toggleTodoStatus_k (todo : Ref) (originalStatus : bool)
    (res : Settled Task.t) (σ : State) : State :=
  match res with
  | Fulfilled _ => σ
  | Rejected =>
      (* todo.is_completed = originalStatus *)
      set_heap (alter (Task.set_is_completed originalStatus) todo (heap σ)) σ
  end.

Definition toggleTodoStatus (todo : Ref) (σ : State) : Run :=
  match heap σ !! todo with
  | Some t =>
      let originalStatus := Task.is_completed t in
      (* todo.is_completed = !todo.is_completed *)
      let t' := Task.set_is_completed (negb (Task.is_completed t)) t in
      let σ := set_heap (<[todo := t']> (heap σ)) σ in
      Await σ (PUT (Task.id t') (Whole t')) (toggleTodoStatus_k todo originalStatus)
  | None => Return σ
  end.

(** *** Fetch initial data *)

(** After [await axios.get(API_URL)]. *)
Definition onMounted_k (res : Settled (list Task.t)) (σ : State) : State :=
  match res with
  | Fulfilled data =>
      (* todos.value = response.data *)
      set_todos (seq (length (heap σ)) (length data)) (set_heap (heap σ ++ data) σ)
  | Rejected => σ                       (* console.error *)
  end.

Definition onMounted (σ : State) : Run := Await σ GET onMounted_k.

(** ** The template *)

(** What a list item shows: the checkbox and either the edit input with the
    draft or the title. *)
Inductive Row :=
| EditMode (checked : bool) (draft : JsString)
| ViewMode (checked : bool) (title : JsString).

(** [v-if="editingTaskId === todo.id"] ... [v-else] *)
Definition row (σ : State) (todo : Task.t) : Row :=
  if decide (editingTaskId σ = Some (Task.id todo))
  then EditMode (Task.is_completed todo) (editingTitle σ)
  else ViewMode (Task.is_completed todo) (Task.title todo).

(** [v-for="todo in todos"] *)
Definition render (σ : State) : list Row := row σ <$> tasks σ.

(** The events the template binds.  A handler that is not [async] finishes
    within the call. *)
Inductive Event :=
| InputNewTaskTitle (s : JsString)      (* v-model="newTaskTitle" *)
| ClickAdd                              (* @click / @keyup.enter = addTask *)
| ChangeCheckbox (todo : Ref)           (* @change = toggleTodoStatus(todo) *)
| InputEditingTitle (s : JsString)      (* v-model="editingTitle" *)
| ClickSave (todo : Ref)                (* @click / @keyup.enter = saveEdit(todo) *)
| ClickCancel                           (* @click = cancelEdit *)
| ClickEdit (todo : Ref)                (* @click / @dblclick = startEditing(todo) *)
| ClickDelete (todo : Ref) (confirmed : bool).  (* @click = deleteTask(todo.id) *)

Definition dispatch (e : Event) (σ : State) : Run :=
  match e with
  | InputNewTaskTitle s => Return (set_newTaskTitle s σ)
  | ClickAdd => addTask σ
  | ChangeCheckbox todo => toggleTodoStatus todo σ
  | InputEditingTitle s => Return (set_editingTitle s σ)
  | ClickSave todo => saveEdit todo σ
  | ClickCancel => Return (cancelEdit σ)
  | ClickEdit todo => Return (startEditing todo σ)
  | ClickDelete todo confirmed =>
      match heap σ !! todo with
      | Some t => deleteTask confirmed (Task.id t) σ
      | None => Return σ
      end
  end.

(** ** Notions used in the statements *)

(** A well-formed state: every reference of the list denotes an object of
    the store. *)
Definition wf (σ : State) : Prop :=
  Forall (fun r => r < length (heap σ)) (todos σ).

(** The call whose request is rejected before anything else happens. *)
Definition fail_now (r : Run) : State :=
  match r with
  | Return σ => σ
  | Await σ _ k => k Rejected σ
  end.

(** How many tasks carry the id. *)
Definition count_id (id : Id) (l : list Task.t) : nat :=
  length (List.filter (fun t => (Task.id t =? id)%Z) l).

(** Position [i] holds the first task with the id. *)
Definition first_match (id : Id) (l : list Task.t) (i : nat) : Prop :=
  (∃ t, l !! i = Some t ∧ Task.id t = id) ∧
  (∀ j t, j < i → l !! j = Some t → Task.id t ≠ id).

(** A row of the list outside edit mode. *)
Definition view_row (todo : Task.t) : Row :=
  ViewMode (Task.is_completed todo) (Task.title todo).

(** ** The component among its pending requests *)

(** A request that has been issued and has not settled yet. *)
Inductive Pending :=
| pending {K : Kind} (req : Request K) (k : Settled (payload K) -> State -> State).

Record World := mkWorld {
  state : State;
  inflight : list Pending
}.

(** The world after a handler call. *)
Definition after (r : Run) (w : World) : World :=
  match r with
  | Return σ => {| state := σ; inflight := inflight w |}
  | Await σ req k => {| state := σ; inflight := inflight w ++ [pending req k] |}
  end.

(** The setup of the script: the state is [initial] and the list fetch of
    [onMounted] is on its way. *)
Definition mounted : World :=
  after (onMounted initial) {| state := initial; inflight := [] |}.

(** The row of [todo] is in edit mode: [editingTaskId === todo.id]. *)
Definition editing (σ : State) (todo : Ref) : Prop :=
  ∃ t, heap σ !! todo = Some t ∧ editingTaskId σ = Some (Task.id t).

(** The events the page offers in a state: the controls of a row act on the
    task of that row, the edit input with its two buttons is there in edit
    mode ([v-if]) and the title with the other two buttons otherwise
    ([v-else]). *)
Definition bound (e : Event) (σ : State) : Prop :=
  match e with
  | InputNewTaskTitle _ | ClickAdd => True
  | ChangeCheckbox todo => todo ∈ todos σ
  | ClickSave todo => todo ∈ todos σ ∧ editing σ todo
  | InputEditingTitle _ | ClickCancel => ∃ todo, todo ∈ todos σ ∧ editing σ todo
  | ClickEdit todo | ClickDelete todo _ => todo ∈ todos σ ∧ ¬ editing σ todo
  end.

(** One step: the user triggers an event, or some pending request settles,
    in any order and with any outcome. *)
Inductive step : World -> World -> Prop :=
| step_event (e : Event) (w : World) :
    bound e (state w) →
    step w (after (dispatch e (state w)) w)
| step_settle {K : Kind} (req : Request K) k (res : Settled (payload K)) σ before later :
    step {| state := σ; inflight := before ++ pending req k :: later |}
         {| state := k res σ; inflight := before ++ later |}.

Definition reachable : World -> Prop := rtc step mounted.

(** The objects of [σ] are still there in [σ'], with the fields no handler
    assigns: only the completion flag of an object ever changes. *)
Definition grows (σ σ' : State) : Prop :=
  ∀ r t, heap σ !! r = Some t →
    ∃ t', heap σ' !! r = Some t' ∧ Task.id t' = Task.id t ∧
          Task.title t' = Task.title t ∧ Task.description t' = Task.description t.

(** A change of state that keeps states well formed and objects alive. *)
Definition sound (σ σ' : State) : Prop := (wf σ → wf σ') ∧ grows σ σ'.

(** What is known of a pending request, whenever and however it settles. *)
Definition keeps (p : Pending) : Prop :=
  match p with
  | pending _ k => ∀ res σ, sound σ (k res σ)
  end.

(** The same for the outcome of a call made in [σ]. *)
Definition run_ok (σ : State) (r : Run) : Prop :=
  match r with
  | Return σ' => sound σ σ'
  | Await σ' _ k => sound σ σ' ∧ ∀ res σ'', sound σ'' (k res σ'')
  end.

(** The invariant of the steps. *)
Definition inv (w : World) : Prop := wf (state w) ∧ Forall keeps (inflight w).

(** ** Notions used in the further properties *)

(** The task a request addresses in its path, if it addresses one. *)
Definition target {K : Kind} (req : Request K) : option Id :=
  match req with
  | GET => None
  | POST _ _ => None
  | PUT id _ => Some id
  | DELETE id => Some id
  end.

(** The same for the request of a call, if it issued one. *)
Definition request_target (r : Run) : option Id :=
  match r with
  | Return _ => None
  | Await _ req _ => target req
  end.

(** The body of the PUT of a call, if it issued one. *)
Definition put_body (r : Run) : option PutBody :=
  match r with
  | Await _ (PUT _ body) _ => Some body
  | _ => None
  end.

(** Is the row in edit mode? *)
Definition is_edit (r : Row) : bool :=
  match r with
  | EditMode _ _ => true
  | ViewMode _ _ => false
  end.

(** ** Example states *)

Module Ex.
Definition task_A : Task.t :=
  {| Task.id := 1; Task.title := js "A"; Task.description := None;
     Task.is_completed := false |}.

Definition task_B : Task.t :=
  {| Task.id := 1; Task.title := js "B"; Task.description := None;
     Task.is_completed := true |}.

Definition milk : Task.t :=
  {| Task.id := 7; Task.title := js "Buy mlk";
     Task.description := Some (js "urgent"); Task.is_completed := true |}.

Definition milk' : Task.t :=
  {| Task.id := 7; Task.title := js "Buy milk";
     Task.description := Some (js "urgent"); Task.is_completed := true |}.

(** One task in the list. *)
Definition one : State :=
  {| heap := [task_A]; todos := [0]; newTaskTitle := [];
     editingTaskId := None; editingTitle := [] |}.

(** Two entries with the same id. *)
Definition twins : State :=
  {| heap := [task_A; task_B]; todos := [0; 1]; newTaskTitle := [];
     editingTaskId := None; editingTitle := [] |}.

(** The draft "A" typed into the empty list. *)
Definition typed_A : State := set_newTaskTitle (js "A") initial.

(** A draft of a space, a tab, a no-break space and a line feed. *)
Definition typed_blank : State :=
  set_newTaskTitle [0x20; 0x09; 0xA0; 0x0A]%N one.

(** The title of [milk] being edited to "Buy milk". *)
Definition editing_milk : State :=
  {| heap := [task_A; milk]; todos := [0; 1]; newTaskTitle := [];
     editingTaskId := Some 7%Z; editingTitle := js "Buy milk" |}.
End Ex.

(** States of the further properties. *)
Module Scene.
Definition task_C : Task.t :=
  {| Task.id := 2; Task.title := js "C"; Task.description := Some (js "later");
     Task.is_completed := false |}.

(** Two tasks with different ids, none being edited. *)
Definition two : State :=
  {| heap := [Ex.task_A; task_C]; todos := [0; 1]; newTaskTitle := [];
     editingTaskId := None; editingTitle := [] |}.

(** The second of them being edited, the draft retyped. *)
Definition editing_C : State :=
  set_editingTitle (js "C!") (startEditing 1 two).

(** The task toggled, then its entry replaced by a saved edit. *)
Definition replaced : State :=
  saveEdit_k 0 (Fulfilled Ex.task_B) (state_of (toggleTodoStatus 0 Ex.one)).
End Scene.

(** ** Facts about strings *)

Lemma trimStart_nil (s : JsString) : trimStart s = [] ↔ blank s = true.
Proof.
  induction s as [|c s IH]; simpl; [done|].
  destruct (strippable c); simpl; [exact IH|]. split; discriminate.
Qed.

Lemma blank_trimStart (s : JsString) : blank (trimStart s) = blank s.
Proof.
  induction s as [|c s IH]; simpl; [done|].
  destruct (strippable c) eqn:Hc; simpl; [exact IH|]. by rewrite Hc.
Qed.

Lemma blank_rev (s : JsString) : blank (rev s) = blank s.
Proof.
  unfold blank. induction s as [|c s IH]; simpl; [done|].
  rewrite forallb_app, IH. simpl. rewrite andb_true_r. apply andb_comm.
Qed.

Lemma trimEnd_nil (s : JsString) : trimEnd s = [] ↔ blank s = true.
Proof.
  unfold trimEnd. rewrite <- (blank_rev s), <- trimStart_nil.
  split; intros H.
  - apply (f_equal (@rev N)) in H. by rewrite rev_involutive in H.
  - by rewrite H.
Qed.

(** The guard of [addTask] holds exactly for the blank drafts. *)
Lemma trim_nil (s : JsString) : trim s = [] ↔ blank s = true.
Proof. unfold trim. by rewrite trimEnd_nil, blank_trimStart. Qed.

Lemma trim_blank_false (s : JsString) :
  blank s = false → ∃ c s', trim s = c :: s'.
Proof.
  intros Hb. destruct (trim s) as [|c s'] eqn:Ht; [|by eauto].
  apply trim_nil in Ht. congruence.
Qed.

(** ** Facts about the object store *)

Section store.
Implicit Types (h : list Task.t) (l : list nat) (d : Task.t).

Lemma objects_cons h r l :
  objects h (r :: l)
  = match h !! r with Some t => t :: objects h l | None => objects h l end.
Proof. reflexivity. Qed.

Lemma objects_cons_Some h r l t :
  h !! r = Some t → objects h (r :: l) = t :: objects h l.
Proof. intros H. by rewrite objects_cons, H. Qed.

Lemma objects_app h l1 l2 : objects h (l1 ++ l2) = objects h l1 ++ objects h l2.
Proof. apply omap_app. Qed.

Lemma objects_length h l :
  Forall (fun r => r < length h) l → length (objects h l) = length l.
Proof.
  induction 1 as [|r l Hr _ IH]; [done|].
  destruct (lookup_lt_is_Some_2 h r Hr) as [t Ht].
  rewrite (objects_cons_Some _ _ _ _ Ht). simpl. by rewrite IH.
Qed.

Lemma objects_lookup h l i r t :
  Forall (fun r => r < length h) l →
  l !! i = Some r → h !! r = Some t → objects h l !! i = Some t.
Proof.
  intros Hwf. revert i. induction Hwf as [|r0 l Hr _ IH]; intros i; [done|].
  destruct (lookup_lt_is_Some_2 h r0 Hr) as [t0 Ht0].
  rewrite (objects_cons_Some _ _ _ _ Ht0).
  destruct i as [|i]; simpl.
  - intros [= ->] ?. congruence.
  - apply IH.
Qed.

(** Allocation does not disturb the objects already there. *)
Lemma objects_grow h h' l :
  Forall (fun r => r < length h) l → objects (h ++ h') l = objects h l.
Proof.
  induction 1 as [|r l Hr _ IH]; [done|].
  by rewrite !objects_cons, (lookup_app_l h h' r Hr), IH.
Qed.

Lemma objects_fresh h d : objects (h ++ [d]) [length h] = [d].
Proof. by rewrite objects_cons, list_lookup_middle. Qed.

(** [l[i] = d] with [d] a new object. *)
Lemma objects_insert_fresh h l i d :
  Forall (fun r => r < length h) l →
  objects (h ++ [d]) (<[i := length h]> l) = <[i := d]> (objects h l).
Proof.
  intros Hwf. revert i. induction Hwf as [|r l Hr Hl IH]; intros i; [done|].
  destruct (lookup_lt_is_Some_2 h r Hr) as [t Ht].
  rewrite (objects_cons_Some h _ _ _ Ht).
  destruct i as [|i]; cbn [insert list_insert].
  - rewrite objects_cons, list_lookup_middle by done.
    f_equal. by apply objects_grow.
  - rewrite objects_cons, (lookup_app_l h [d] r Hr), Ht. f_equal. apply IH.
Qed.

Lemma objects_seq h h' : objects (h ++ h') (seq (length h) (length h')) = h'.
Proof.
  revert h. induction h' as [|d h' IH]; intros h; [done|].
  simpl seq. rewrite objects_cons, list_lookup_middle by done. f_equal.
  specialize (IH (h ++ [d])).
  rewrite length_app, <- app_assoc in IH. simpl in IH.
  by rewrite Nat.add_1_r in IH.
Qed.

(** Filtering the references by [todo.id !== id] filters the objects. *)
Lemma objects_filter h id l :
  objects h (List.filter (id_differs h id) l)
  = List.filter (fun t => negb (Task.id t =? id)%Z) (objects h l).
Proof.
  induction l as [|r l IH]; [done|].
  cbn [List.filter]. rewrite (objects_cons h r l). unfold id_differs at 1.
  destruct (h !! r) as [t|] eqn:Hr; cbn [List.filter].
  - destruct (Task.id t =? id)%Z; cbn [negb]; [done|].
    by rewrite (objects_cons_Some _ _ _ _ Hr), IH.
  - by rewrite objects_cons, Hr, IH.
Qed.

(** [findIndex] returns the first position whose object has the id. *)
Lemma findIndex_Some h id l i :
  Forall (fun r => r < length h) l →
  findIndex h id l = Some i ↔
  (∃ t, objects h l !! i = Some t ∧ Task.id t = id) ∧
  (∀ j t, j < i → objects h l !! j = Some t → Task.id t ≠ id).
Proof.
  intros Hwf. revert i. induction Hwf as [|r l Hr _ IH]; intros i.
  - split; [done|]. by intros [[t [? _]] _].
  - destruct (lookup_lt_is_Some_2 h r Hr) as [t Ht].
    rewrite (objects_cons_Some _ _ _ _ Ht). simpl. rewrite Ht.
    destruct (Z.eqb_spec (Task.id t) id) as [Heq|Hne].
    + split.
      * intros [= <-]. split; [by exists t|]. intros j ? Hj. lia.
      * intros [_ Hfirst]. destruct i as [|i]; [done|].
        exfalso. by apply (Hfirst 0 t); [lia| |].
    + destruct i as [|i].
      * split.
        -- destruct (findIndex h id l); discriminate.
        -- by intros [[t' [[= <-] ?]] _].
      * split.
        -- intros Hf. destruct (findIndex h id l) as [i'|] eqn:Hi; [|done].
           injection Hf as ->. destruct (proj1 (IH i) eq_refl) as [Hex Hfirst].
           split; [exact Hex|]. intros [|j] t' Hj; simpl.
           ++ by intros [= <-].
           ++ apply Hfirst. lia.
        -- intros [Hex Hfirst].
           assert (findIndex h id l = Some i) as ->; [|done].
           apply IH. split; [exact Hex|].
           intros j t' Hj Hl. apply (Hfirst (S j) t'); [lia|done].
Qed.

Lemma findIndex_None h id l :
  (∀ t, t ∈ objects h l → Task.id t ≠ id) → findIndex h id l = None.
Proof.
  induction l as [|r l IH]; [done|].
  rewrite objects_cons. cbn [findIndex].
  destruct (h !! r) as [t|] eqn:Hr; intros Hall.
  - destruct (Z.eqb_spec (Task.id t) id) as [Heq|Hne].
    + exfalso. apply (Hall t); [left|done].
    + rewrite IH; [done|]. intros t' Hin. apply Hall. by right.
  - by rewrite IH.
Qed.
End store.

(** ** Add task *)

(** C3: when the draft title is empty or consists of white space only,
    [addTask] returns at its guard: no request is issued and the whole local
    state, the task list included, is what it was. *)
Theorem addTask_blank (σ : State) :
  blank (newTaskTitle σ) = true →
  addTask σ = Return σ ∧ sends (addTask σ) = false ∧ tasks (state_of (addTask σ)) = tasks σ.
Proof.
  intros Hb. apply trim_nil in Hb. unfold addTask. by rewrite Hb.
Qed.

Lemma addTask_blank_witness :
  blank (newTaskTitle Ex.typed_blank) = true ∧
  addTask Ex.typed_blank = Return Ex.typed_blank.
Proof.
  split; [reflexivity|]. apply (addTask_blank Ex.typed_blank). reflexivity.
Defined.

(** A draft with anything else in it does reach the request. *)
Lemma addTask_sends (σ : State) : sends (addTask σ) = negb (blank (newTaskTitle σ)).
Proof.
  unfold addTask. destruct (blank (newTaskTitle σ)) eqn:Hb.
  - apply trim_nil in Hb. by rewrite Hb.
  - destruct (trim_blank_false _ Hb) as (c & s' & ->). done.
Qed.

(** C2: with a non-blank draft [addTask] posts the draft with
    [is_completed: false]; when that request is fulfilled with [data], the
    list is one longer, it is the former list with [data] (the record that
    carries the server's id) at its end, and the draft is the empty string.
    [σ] is the state at the call, [σ'] the (well-formed) state when the
    response arrives. *)
Theorem addTask_success (σ σ' : State) (data : Task.t) :
  blank (newTaskTitle σ) = false →
  wf σ' →
  addTask σ = Await σ (POST (newTaskTitle σ) false) addTask_k ∧
  let σ'' := addTask_k (Fulfilled data) σ' in
  length (tasks σ'') = S (length (tasks σ')) ∧
  tasks σ'' = tasks σ' ++ [data] ∧
  last (tasks σ'') = Some data ∧
  newTaskTitle σ'' = [].
Proof.
  intros Hb Hwf. split.
  - unfold addTask. by destruct (trim_blank_false _ Hb) as (c & s' & ->).
  - assert (tasks (addTask_k (Fulfilled data) σ') = tasks σ' ++ [data]) as Heq.
    { unfold tasks. simpl. rewrite objects_app, objects_fresh.
      by rewrite (objects_grow _ _ _ Hwf). }
    cbv zeta. rewrite Heq. repeat split.
    + rewrite length_app. simpl. lia.
    + apply last_snoc.
Qed.

Lemma addTask_success_witness :
  let σ'' := addTask_k (Fulfilled Ex.task_A) Ex.typed_A in
  addTask Ex.typed_A = Await Ex.typed_A (POST (js "A") false) addTask_k ∧
  tasks σ'' = [Ex.task_A] ∧ newTaskTitle σ'' = [].
Proof.
  destruct (addTask_success Ex.typed_A Ex.typed_A Ex.task_A) as (Hreq & _ & Htasks & _ & Hdraft).
  - reflexivity.
  - constructor.
  - exact (conj Hreq (conj Htasks Hdraft)).
Defined.

(** ** Delete task *)

Lemma filter_differs_length (id : Id) (l : list Task.t) :
  length (List.filter (fun t => negb (Task.id t =? id)%Z) l) + count_id id l
  = length l.
Proof.
  unfold count_id. induction l as [|t l IH]; simpl; [done|].
  destruct (Task.id t =? id)%Z; simpl; lia.
Qed.

Lemma tasks_deleteTask_k (id : Id) (σ : State) :
  tasks (deleteTask_k id (Fulfilled ()) σ)
  = List.filter (fun t => negb (Task.id t =? id)%Z) (tasks σ).
Proof. apply objects_filter. Qed.

(** C4, as the code has it: a confirmed [deleteTask] issues the DELETE
    request; when it is fulfilled no task with that id is left in the list,
    and the list is shorter by the number of entries that carried the id,
    which is one when exactly one entry carried it.  [σ] is the state at the
    call, [σ'] the state when the response arrives. *)
Theorem deleteTask_success (σ σ' : State) (id : Id) :
  deleteTask true id σ = Await σ (DELETE id) (deleteTask_k id) ∧
  let σ'' := deleteTask_k id (Fulfilled ()) σ' in
  (∀ t, t ∈ tasks σ'' → Task.id t ≠ id) ∧
  length (tasks σ'') + count_id id (tasks σ') = length (tasks σ') ∧
  (count_id id (tasks σ') = 1 → length (tasks σ') = S (length (tasks σ''))).
Proof.
  split; [done|]. cbv zeta. rewrite tasks_deleteTask_k.
  pose proof (filter_differs_length id (tasks σ')) as Hlen.
  repeat split.
  - intros t Hin. apply list_elem_of_In, filter_In in Hin as [_ Hne].
    apply negb_true_iff in Hne. by apply Z.eqb_neq.
  - exact Hlen.
  - intros Hone. lia.
Qed.

Lemma deleteTask_success_witness :
  count_id 1 (tasks Ex.one) = 1 ∧
  length (tasks Ex.one) = S (length (tasks (deleteTask_k 1 (Fulfilled ()) Ex.one))).
Proof.
  split; [reflexivity|].
  apply (deleteTask_success Ex.one Ex.one 1). reflexivity.
Defined.

(** C4, as it is worded, fails: the length does not go down by one when the
    id is no longer in the list (the second of two confirmed deletes of the
    same row, both fulfilled), nor when two entries carry the id. *)
Lemma deleteTask_length_counterexample :
  let σ1 := deleteTask_k 1 (Fulfilled ()) Ex.one in
  let σ2 := deleteTask_k 1 (Fulfilled ()) σ1 in
  let σ3 := deleteTask_k 1 (Fulfilled ()) Ex.twins in
  (dispatch (ClickDelete 0 true) Ex.one
     = Await Ex.one (DELETE 1) (deleteTask_k 1) ∧
   length (tasks σ1) = 0 ∧ length (tasks σ2) = 0 ∧
   length (tasks σ1) ≠ S (length (tasks σ2))) ∧
  (length (tasks Ex.twins) = 2 ∧ length (tasks σ3) = 0 ∧
   length (tasks Ex.twins) ≠ S (length (tasks σ3))).
Proof. cbv zeta. repeat split; try reflexivity; vm_compute; discriminate. Qed.

(** C8: [deleteTask] issues its request exactly when the confirmation was
    accepted; declined, it returns at once with the list and the rest of
    the local state as they were. *)
Theorem deleteTask_confirm (σ : State) (id : Id) (todo : Ref) (confirmed : bool) :
  sends (deleteTask confirmed id σ) = confirmed ∧
  deleteTask false id σ = Return σ ∧
  dispatch (ClickDelete todo false) σ = Return σ ∧
  state_of (deleteTask confirmed id σ) = σ.
Proof. repeat split; [by destruct confirmed|simpl; by destruct (_ !! _)|by destruct confirmed]. Qed.

(** ** Edit task *)

(** C5: [saveEdit] sends a PUT for the task's id whose body is the draft
    title with the description and the completion flag of the task as they
    are, and changes nothing locally before the response. *)
Theorem saveEdit_request (σ : State) (todo : Ref) (t : Task.t) :
  heap σ !! todo = Some t →
  saveEdit todo σ
  = Await σ
      (PUT (Task.id t)
         (Fields (editingTitle σ) (Task.description t) (Task.is_completed t)))
      (saveEdit_k todo).
Proof. intros Ht. unfold saveEdit. by rewrite Ht. Qed.

(** The example of the specification: draft "Buy milk", description
    "urgent", completion true. *)
Lemma saveEdit_request_witness :
  saveEdit 1 Ex.editing_milk
  = Await Ex.editing_milk
      (PUT 7 (Fields (js "Buy milk") (Some (js "urgent")) true))
      (saveEdit_k 1).
Proof. apply (saveEdit_request Ex.editing_milk 1 Ex.milk). reflexivity. Defined.

Lemma cancelEdit_tasks (σ : State) : tasks (cancelEdit σ) = tasks σ.
Proof. reflexivity. Qed.

(** C6: a rejected PUT leaves the state, the edit session included, as it
    is; a fulfilled one clears the edit session (no task id, empty draft)
    and puts the returned record in the place of the first entry of the
    list that has the task's id.  [σ] is the (well-formed) state when the
    response arrives and [t] the task object the handler was called with. *)
Theorem saveEdit_settled (σ : State) (todo : Ref) (t data : Task.t) :
  wf σ →
  heap σ !! todo = Some t →
  saveEdit_k todo Rejected σ = σ ∧
  let σ' := saveEdit_k todo (Fulfilled data) σ in
  editingTaskId σ' = None ∧ editingTitle σ' = [] ∧
  (∀ i, first_match (Task.id t) (tasks σ) i → tasks σ' = <[i := data]> (tasks σ)).
Proof.
  intros Hwf Ht. split; [done|]. cbv zeta. unfold saveEdit_k. rewrite Ht.
  repeat split.
  intros i Hi. apply (findIndex_Some _ _ _ _ Hwf) in Hi. rewrite Hi.
  rewrite cancelEdit_tasks. unfold tasks. simpl.
  by apply objects_insert_fresh.
Qed.

Lemma saveEdit_settled_witness :
  let σ' := saveEdit_k 1 (Fulfilled Ex.milk') Ex.editing_milk in
  saveEdit_k 1 Rejected Ex.editing_milk = Ex.editing_milk ∧
  editingTaskId σ' = None ∧ editingTitle σ' = [] ∧
  tasks σ' = [Ex.task_A; Ex.milk'].
Proof.
  destruct (saveEdit_settled Ex.editing_milk 1 Ex.milk Ex.milk')
    as (Hrej & Hid & Htitle & Hlist).
  - repeat constructor.
  - reflexivity.
  - refine (conj Hrej (conj Hid (conj Htitle _))).
    apply (Hlist 1). split.
    + exists Ex.milk. by split.
    + intros [|j] x Hj; [|lia]. intros [= <-]. done.
Defined.

(** C10: when the PUT of [saveEdit] is fulfilled and no entry of the list
    has the task's id any more, the list, its objects and the "add" draft
    are untouched and the edit session is cleared all the same. *)
Theorem saveEdit_absent (σ : State) (todo : Ref) (t data : Task.t) :
  heap σ !! todo = Some t →
  (∀ x, x ∈ tasks σ → Task.id x ≠ Task.id t) →
  let σ' := saveEdit_k todo (Fulfilled data) σ in
  σ' = cancelEdit σ ∧
  heap σ' = heap σ ∧ todos σ' = todos σ ∧ tasks σ' = tasks σ ∧
  newTaskTitle σ' = newTaskTitle σ ∧
  editingTaskId σ' = None ∧ editingTitle σ' = [].
Proof.
  intros Ht Habs. cbv zeta. unfold saveEdit_k. rewrite Ht.
  by rewrite (findIndex_None _ _ _ Habs).
Qed.

(** The delete of the task is fulfilled while its edit is outstanding. *)
Lemma saveEdit_absent_witness :
  let σ0 := startEditing 0 Ex.one in
  let σ1 := deleteTask_k 1 (Fulfilled ()) σ0 in
  let σ2 := saveEdit_k 0 (Fulfilled Ex.task_B) σ1 in
  editingTaskId σ1 = Some 1%Z ∧ tasks σ1 = [] ∧
  tasks σ2 = [] ∧ editingTaskId σ2 = None.
Proof.
  cbv zeta.
  destruct (saveEdit_absent (deleteTask_k 1 (Fulfilled ()) (startEditing 0 Ex.one))
              0 Ex.task_A Ex.task_B) as (_ & _ & _ & Htasks & _ & Hid & _).
  - reflexivity.
  - intros x Hx. vm_compute in Hx. by apply elem_of_nil in Hx.
  - exact (conj eq_refl (conj eq_refl (conj Htasks Hid))).
Defined.

Lemma row_cancelEdit (σ : State) (todo : Task.t) : row (cancelEdit σ) todo = view_row todo.
Proof. unfold row. by case_decide. Qed.

Lemma render_cancelEdit (σ : State) : render (cancelEdit σ) = view_row <$> tasks σ.
Proof.
  unfold render. rewrite cancelEdit_tasks.
  induction (tasks σ) as [|t l IH]; [done|].
  rewrite !fmap_cons. by rewrite row_cancelEdit, IH.
Qed.

(** C9: [startEditing] and [cancelEdit] finish within the call, without a
    request, and leave the list and its objects alone.  [startEditing] sets
    the edit session to the id of the task with the task's title as draft;
    [cancelEdit] clears the session whatever it was, after which every row
    shows the title its task has, also when the draft had been retyped. *)
Theorem edit_session_local (σ : State) (todo : Ref) (t : Task.t) (draft : JsString) :
  heap σ !! todo = Some t →
  (sends (dispatch (ClickEdit todo) σ) = false ∧
   heap (startEditing todo σ) = heap σ ∧ todos (startEditing todo σ) = todos σ ∧
   editingTaskId (startEditing todo σ) = Some (Task.id t) ∧
   editingTitle (startEditing todo σ) = Task.title t) ∧
  (sends (dispatch ClickCancel σ) = false ∧
   heap (cancelEdit σ) = heap σ ∧ todos (cancelEdit σ) = todos σ ∧
   editingTaskId (cancelEdit σ) = None ∧ editingTitle (cancelEdit σ) = [] ∧
   render (cancelEdit σ) = view_row <$> tasks σ) ∧
  render (cancelEdit (set_editingTitle draft (startEditing todo σ)))
  = view_row <$> tasks σ.
Proof.
  intros Ht. unfold startEditing. rewrite Ht.
  split; [done|]. split; [|by rewrite render_cancelEdit].
  do 5 (split; [done|]). apply render_cancelEdit.
Qed.

Lemma edit_session_local_witness :
  let σ := startEditing 0 Ex.one in
  editingTaskId σ = Some 1%Z ∧ editingTitle σ = js "A" ∧
  render (set_editingTitle (js "B") σ) = [EditMode false (js "B")] ∧
  render (cancelEdit (set_editingTitle (js "B") σ)) = [ViewMode false (js "A")].
Proof.
  destruct (edit_session_local Ex.one 0 Ex.task_A (js "B"))
    as ((_ & _ & _ & Hid & Htitle) & _ & Hview).
  - reflexivity.
  - exact (conj Hid (conj Htitle (conj eq_refl Hview))).
Defined.

(** ** Toggle status *)

Lemma set_is_completed_twice (b b' : bool) (t : Task.t) :
  Task.set_is_completed b (Task.set_is_completed b' t) = Task.set_is_completed b t.
Proof. reflexivity. Qed.

Lemma set_is_completed_same (t : Task.t) :
  Task.set_is_completed (Task.is_completed t) t = t.
Proof. by destruct t. Qed.

(** Flipping the flag of an object and assigning the old value again gives
    back the store. *)
Lemma revert_flip (h : list Task.t) (todo : Ref) (t : Task.t) (b : bool) :
  h !! todo = Some t →
  alter (Task.set_is_completed (Task.is_completed t)) todo
    (<[todo := Task.set_is_completed b t]> h) = h.
Proof.
  intros Ht. rewrite list_insert_alter, list_alter_alter_eq.
  rewrite <- (list_insert_id h todo t Ht) at 2.
  rewrite (list_insert_alter h todo t).
  apply list_alter_ext; [|done]. intros x _. simpl.
  by rewrite set_is_completed_twice, set_is_completed_same.
Qed.

(** C1: [toggleTodoStatus] stores the negated flag in the task object and
    only then issues the PUT, whose body is the object with the new flag.
    When the request is rejected the flag of that object is set to the
    value it had before the toggle and nothing else changes (rejected at
    once, the state is the one before the call); when it is fulfilled the
    state stays as it is, whatever the response carries.  [σ] is the state
    at the call, [σ'] the state when the response arrives. *)
Theorem toggleTodoStatus_optimistic (σ σ' : State) (todo : Ref) (t t' data : Task.t) :
  heap σ !! todo = Some t →
  heap σ' !! todo = Some t' →
  let original := Task.is_completed t in
  let flipped := Task.set_is_completed (negb original) t in
  let σ1 := set_heap (<[todo := flipped]> (heap σ)) σ in
  (toggleTodoStatus todo σ
   = Await σ1 (PUT (Task.id t) (Whole flipped)) (toggleTodoStatus_k todo original) ∧
   heap σ1 !! todo = Some flipped ∧
   Task.is_completed flipped = negb original) ∧
  (let σ'' := toggleTodoStatus_k todo original Rejected σ' in
   heap σ'' !! todo = Some (Task.set_is_completed original t') ∧
   (∀ r, r ≠ todo → heap σ'' !! r = heap σ' !! r) ∧
   todos σ'' = todos σ' ∧ newTaskTitle σ'' = newTaskTitle σ' ∧
   editingTaskId σ'' = editingTaskId σ' ∧ editingTitle σ'' = editingTitle σ') ∧
  toggleTodoStatus_k todo original Rejected σ1 = σ ∧
  toggleTodoStatus_k todo original (Fulfilled data) σ' = σ'.
Proof.
  intros Ht Ht'. cbv zeta. split; [|split; [|split]].
  - split; [|split; [|done]].
    + unfold toggleTodoStatus. by rewrite Ht.
    + simpl. apply list_lookup_insert_eq. by eapply lookup_lt_Some.
  - simpl. split; [|split; [|done]].
    + by rewrite list_lookup_alter_eq, Ht'.
    + intros r Hr. by apply list_lookup_alter_ne.
  - unfold toggleTodoStatus_k, set_heap. simpl.
    rewrite (revert_flip _ _ _ _ Ht). by destruct σ.
  - done.
Qed.

Lemma toggleTodoStatus_optimistic_witness :
  let σ1 := state_of (toggleTodoStatus 0 Ex.one) in
  (Task.is_completed <$> tasks Ex.one) = [false] ∧
  (Task.is_completed <$> tasks σ1) = [true] ∧
  toggleTodoStatus_k 0 false Rejected σ1 = Ex.one ∧
  toggleTodoStatus_k 0 false (Fulfilled Ex.task_B) σ1 = σ1.
Proof.
  destruct (toggleTodoStatus_optimistic Ex.one
              (state_of (toggleTodoStatus 0 Ex.one)) 0 Ex.task_A
              (Task.set_is_completed true Ex.task_A) Ex.task_B)
    as (_ & _ & Hrevert & Hkeep).
  - reflexivity.
  - reflexivity.
  - exact (conj eq_refl (conj eq_refl (conj Hrevert Hkeep))).
Defined.

(** ** Failed requests *)

Lemma toggleTodoStatus_fail_now (σ : State) (todo : Ref) :
  fail_now (toggleTodoStatus todo σ) = σ.
Proof.
  unfold toggleTodoStatus. destruct (heap σ !! todo) as [t|] eqn:Ht; [|done].
  simpl. rewrite (revert_flip _ _ _ _ Ht). by destruct σ.
Qed.

(** C7: a rejected request of [addTask], [saveEdit], [deleteTask] or the
    initial fetch changes nothing: the call had left the state as it found
    it, and the [catch] block leaves the state of its moment as it is, so
    the list is the same, the "add" draft is still there and the edit
    session is still open.  A rejected toggle keeps the list of tasks and
    gives back the state before the call. *)
Theorem rejected_preserves (σ σ' : State) (todo : Ref) (id : Id) (confirmed b : bool) :
  (state_of (addTask σ) = σ ∧ fail_now (addTask σ) = σ ∧
   addTask_k Rejected σ' = σ' ∧
   newTaskTitle (addTask_k Rejected σ') = newTaskTitle σ') ∧
  (state_of (saveEdit todo σ) = σ ∧ fail_now (saveEdit todo σ) = σ ∧
   saveEdit_k todo Rejected σ' = σ' ∧
   editingTaskId (saveEdit_k todo Rejected σ') = editingTaskId σ' ∧
   editingTitle (saveEdit_k todo Rejected σ') = editingTitle σ') ∧
  (state_of (deleteTask confirmed id σ) = σ ∧
   fail_now (deleteTask confirmed id σ) = σ ∧
   deleteTask_k id Rejected σ' = σ') ∧
  (state_of (onMounted σ) = σ ∧ fail_now (onMounted σ) = σ ∧
   onMounted_k Rejected σ' = σ') ∧
  (fail_now (toggleTodoStatus todo σ) = σ ∧
   todos (toggleTodoStatus_k todo b Rejected σ') = todos σ' ∧
   length (heap (toggleTodoStatus_k todo b Rejected σ')) = length (heap σ')).
Proof.
  split; [|split; [|split; [|split]]].
  - unfold addTask. by destruct (trim _).
  - unfold saveEdit. by destruct (_ !! _).
  - by destruct confirmed.
  - done.
  - split; [apply toggleTodoStatus_fail_now|]. split; [done|].
    simpl. apply length_alter.
Qed.

(** ** Invariants of the steps *)

Section invariant.
Implicit Types (σ : State) (w : World).

Local Ltac wf_grow H :=
  eapply Forall_impl; [exact H|]; simpl; intros ? ?;
  rewrite ?length_app, ?length_alter, ?length_insert; simpl; lia.

Lemma grows_refl σ : grows σ σ.
Proof. intros r t Ht. by exists t. Qed.

Lemma grows_trans σ1 σ2 σ3 : grows σ1 σ2 → grows σ2 σ3 → grows σ1 σ3.
Proof.
  intros H12 H23 r t Ht.
  destruct (H12 r t Ht) as (t2 & Ht2 & Hi & Hti & Hd).
  destruct (H23 r t2 Ht2) as (t3 & Ht3 & Hi' & Hti' & Hd').
  exists t3. repeat split; congruence.
Qed.

Lemma grows_same_heap σ σ' : heap σ' = heap σ → grows σ σ'.
Proof. intros Hh r t Ht. exists t. by rewrite Hh. Qed.

Lemma grows_app σ σ' h : heap σ' = heap σ ++ h → grows σ σ'.
Proof.
  intros Hh r t Ht. exists t. rewrite Hh. split; [|done].
  by apply lookup_app_l_Some.
Qed.

(** Assigning the flag of one object. *)
Lemma grows_alter σ σ' todo b :
  heap σ' = alter (Task.set_is_completed b) todo (heap σ) → grows σ σ'.
Proof.
  intros Hh r t Ht. rewrite Hh. destruct (decide (todo = r)) as [->|Hne].
  - exists (Task.set_is_completed b t).
    by rewrite list_lookup_alter_eq, Ht.
  - exists t. by rewrite list_lookup_alter_ne.
Qed.

Lemma sound_refl σ : sound σ σ.
Proof. split; [done|apply grows_refl]. Qed.

Lemma wf_initial : wf initial.
Proof. constructor. Qed.

Lemma sound_addTask_k res σ : sound σ (addTask_k res σ).
Proof.
  destruct res as [data|]; [|apply sound_refl]. split.
  - intros Hwf. unfold wf. simpl. apply Forall_app. split; [wf_grow Hwf|].
    repeat constructor. rewrite length_app. simpl. lia.
  - by apply (grows_app _ _ [data]).
Qed.

Lemma sound_deleteTask_k id res σ : sound σ (deleteTask_k id res σ).
Proof.
  destruct res as [[]|]; [|apply sound_refl]. split.
  - intros Hwf. unfold wf in *. simpl.
    induction Hwf as [|r l Hr _ IH]; simpl; [constructor|].
    destruct (id_differs (heap σ) id r); [by constructor|done].
  - by apply grows_same_heap.
Qed.

Lemma sound_cancelEdit σ : sound σ (cancelEdit σ).
Proof. split; [done|by apply grows_same_heap]. Qed.

Lemma sound_startEditing todo σ : sound σ (startEditing todo σ).
Proof.
  unfold startEditing. destruct (_ !! _); [|apply sound_refl].
  split; [done|by apply grows_same_heap].
Qed.

Lemma sound_saveEdit_k todo res σ : sound σ (saveEdit_k todo res σ).
Proof.
  destruct res as [data|]; [|apply sound_refl].
  unfold saveEdit_k. destruct (heap σ !! todo); [|apply sound_refl].
  destruct (findIndex _ _ _); [|apply sound_cancelEdit]. split.
  - intros Hwf. unfold wf. simpl. apply Forall_insert; [wf_grow Hwf|].
    rewrite length_app. simpl. lia.
  - by apply (grows_app _ _ [data]).
Qed.

Lemma sound_toggleTodoStatus_k todo b res σ :
  sound σ (toggleTodoStatus_k todo b res σ).
Proof.
  destruct res; [apply sound_refl|]. split.
  - intros Hwf. unfold wf. simpl. wf_grow Hwf.
  - by apply (grows_alter _ _ todo b).
Qed.

Lemma sound_onMounted_k res σ : sound σ (onMounted_k res σ).
Proof.
  destruct res as [data|]; [|apply sound_refl]. split.
  - intros _. unfold wf. simpl.
    apply Forall_seq. intros r Hr. rewrite length_app. lia.
  - by apply (grows_app _ _ data).
Qed.

Lemma dispatch_ok e σ : run_ok σ (dispatch e σ).
Proof.
  destruct e as [s| |todo|s|todo| |todo|todo c]; simpl.
  - split; [done|by apply grows_same_heap].
  - unfold addTask. destruct (trim _); [apply sound_refl|].
    split; [apply sound_refl|]. intros. apply sound_addTask_k.
  - unfold toggleTodoStatus. destruct (_ !! _) as [t|] eqn:Ht; [|apply sound_refl].
    split; [|intros; apply sound_toggleTodoStatus_k]. split.
    + intros Hwf. unfold wf. simpl. wf_grow Hwf.
    + apply (grows_alter _ _ todo (negb (Task.is_completed t))). simpl.
      rewrite list_insert_alter. apply list_alter_ext; [|done].
      intros x Hx. congruence.
  - split; [done|by apply grows_same_heap].
  - unfold saveEdit. destruct (_ !! _); [|apply sound_refl].
    split; [apply sound_refl|]. intros. apply sound_saveEdit_k.
  - apply sound_cancelEdit.
  - apply sound_startEditing.
  - destruct (_ !! _); [|apply sound_refl]. destruct c; [|apply sound_refl].
    split; [apply sound_refl|]. intros. apply sound_deleteTask_k.
Qed.

Lemma inv_mounted : inv mounted.
Proof.
  split; [constructor|]. unfold mounted. simpl.
  constructor; [|constructor]. intros res σ. apply sound_onMounted_k.
Qed.

Lemma step_sound w w' : step w w' → inv w → inv w' ∧ grows (state w) (state w').
Proof.
  intros Hstep [Hwf Hk]. destruct Hstep as [e w _|A req k res σ before later].
  - pose proof (dispatch_ok e (state w)) as Hok.
    destruct (dispatch e (state w)) as [σ|A σ req k]; simpl in *.
    + destruct Hok as [Hσ Hg]. split; [|exact Hg]. split; [by apply Hσ|done].
    + destruct Hok as [[Hσ Hg] Hk']. split; [|exact Hg].
      split; [by apply Hσ|]. simpl.
      apply Forall_app. split; [done|]. constructor; [exact Hk'|constructor].
  - simpl in *. apply Forall_app in Hk as [Hb Hl].
    apply Forall_cons in Hl as [Hp Hl]. destruct (Hp res σ) as [Hσ Hg].
    split; [|exact Hg]. split; [by apply Hσ|]. apply Forall_app. by split.
Qed.

Lemma steps_sound w w' :
  rtc step w w' → inv w → inv w' ∧ grows (state w) (state w').
Proof.
  induction 1 as [w|w1 w2 w3 Hstep _ IH]; intros Hinv.
  - split; [done|apply grows_refl].
  - destruct (step_sound _ _ Hstep Hinv) as [Hinv2 Hg].
    destruct (IH Hinv2) as [Hinv3 Hg']. split; [done|].
    by apply (grows_trans _ (state w2)).
Qed.


(** A task object stays in the store, with its id, title and description,
    from the call of a handler to the moment its request settles. *)
Lemma reachable_grows w w' :
  reachable w → rtc step w w' → grows (state w) (state w').
Proof.
  intros Hr Hsteps.
  destruct (steps_sound _ _ Hr inv_mounted) as [Hinv _].
  by destruct (steps_sound _ _ Hsteps Hinv).
Qed.
End invariant.

(** ** Scenarios *)

(** The list with one task is what the initial fetch gives when the server
    holds that task. *)
Example reachable_one : reachable {| state := Ex.one; inflight := [] |}.
Proof.
  apply rtc_once.
  exact (step_settle GET onMounted_k (Fulfilled [Ex.task_A]) initial [] []).
Qed.


(** Empty list, create "A", toggle it, the server confirms, delete it with
    the confirmation accepted. *)
Example end_to_end :
  let σ1 := set_newTaskTitle (js "A") initial in
  let σ2 := addTask_k (Fulfilled Ex.task_A) σ1 in
  let σ3 := state_of (toggleTodoStatus 0 σ2) in
  let σ4 := toggleTodoStatus_k 0 false (Fulfilled Ex.task_A) σ3 in
  let σ5 := deleteTask_k 1 (Fulfilled ()) σ4 in
  addTask σ1 = Await σ1 (POST (js "A") false) addTask_k ∧
  tasks σ2 = [Ex.task_A] ∧ newTaskTitle σ2 = [] ∧
  tasks σ3 = [Task.set_is_completed true Ex.task_A] ∧
  tasks σ4 = [Task.set_is_completed true Ex.task_A] ∧
  deleteTask true 1 σ4 = Await σ4 (DELETE 1) (deleteTask_k 1) ∧
  tasks σ5 = [].
Proof. cbv zeta. repeat split. Qed.

(** A toggle is still pending when a saved edit puts the server's record in
    the place of the task: the rejection of the toggle then reverts the flag
    of the old object, which the list no longer shows. *)
Example revert_after_replace :
  let σ1 := state_of (toggleTodoStatus 0 Ex.one) in
  let σ2 := saveEdit_k 0 (Fulfilled Ex.task_B) σ1 in
  let σ3 := toggleTodoStatus_k 0 false Rejected σ2 in
  tasks σ1 = [Task.set_is_completed true Ex.task_A] ∧
  tasks σ2 = [Ex.task_B] ∧
  tasks σ3 = [Ex.task_B] ∧ heap σ3 !! 0 = Some Ex.task_A.
Proof. cbv zeta. repeat split. Qed.

(** Two toggles of the same task are pending; each rejection assigns the
    value its own call had found. *)
Example two_toggles_rejected :
  let σ1 := state_of (toggleTodoStatus 0 Ex.one) in
  let σ2 := state_of (toggleTodoStatus 0 σ1) in
  let σ3 := toggleTodoStatus_k 0 false Rejected σ2 in
  let σ4 := toggleTodoStatus_k 0 true Rejected σ3 in
  (Task.is_completed <$> tasks σ1) = [true] ∧
  (Task.is_completed <$> tasks σ2) = [false] ∧
  (Task.is_completed <$> tasks σ3) = [false] ∧
  (Task.is_completed <$> tasks σ4) = [true].
Proof. cbv zeta. repeat split. Qed.


(** * Further properties of the script *)

(** ** The initial fetch *)

(** X1: when the fetch of [onMounted] is fulfilled, the list is the fetched
    collection, in the order of the response and whatever the list held at
    that moment; the "add" draft and the edit session are not touched, and
    the new state is well formed. *)
Theorem onMounted_replaces (σ : State) (data : list Task.t) :
  let σ' := onMounted_k (Fulfilled data) σ in
  tasks σ' = data ∧
  newTaskTitle σ' = newTaskTitle σ ∧
  editingTaskId σ' = editingTaskId σ ∧ editingTitle σ' = editingTitle σ ∧
  wf σ'.
Proof.
  cbv zeta. split; [apply objects_seq|]. do 3 (split; [done|]).
  unfold wf. simpl. apply Forall_seq. intros r Hr. rewrite length_app. lia.
Qed.

(** ** Add task *)

Lemma tasks_addTask_k (σ : State) (data : Task.t) :
  wf σ → tasks (addTask_k (Fulfilled data) σ) = tasks σ ++ [data].
Proof.
  intros Hwf. unfold tasks. simpl.
  by rewrite objects_app, objects_fresh, (objects_grow _ _ _ Hwf).
Qed.

Lemma addTask_nonblank (σ : State) :
  blank (newTaskTitle σ) = false →
  addTask σ = Await σ (POST (newTaskTitle σ) false) addTask_k.
Proof.
  intros Hb. unfold addTask. by destruct (trim_blank_false _ Hb) as (c & s' & ->).
Qed.

(** X2: nothing guards a second submission.  While the first POST is
    pending the state is what it was, so a second call issues the same
    request; when both are fulfilled the list has both records at its end,
    in the order the responses arrived. *)
Theorem addTask_twice (σ σ' : State) (d1 d2 : Task.t) :
  blank (newTaskTitle σ) = false →
  wf σ' →
  sends (addTask σ) = true ∧
  addTask (state_of (addTask σ)) = addTask σ ∧
  tasks (addTask_k (Fulfilled d2) (addTask_k (Fulfilled d1) σ')) = tasks σ' ++ [d1; d2].
Proof.
  intros Hb Hwf. rewrite (addTask_nonblank σ Hb).
  split; [done|]. split; [simpl; by rewrite (addTask_nonblank σ Hb)|].
  assert (wf (addTask_k (Fulfilled d1) σ')) as Hwf1 by by apply sound_addTask_k.
  by rewrite (tasks_addTask_k _ d2 Hwf1), (tasks_addTask_k _ d1 Hwf), <- app_assoc.
Qed.

Lemma addTask_twice_witness :
  tasks (addTask_k (Fulfilled Scene.task_C) (addTask_k (Fulfilled Ex.task_A) Ex.typed_A))
  = [Ex.task_A; Scene.task_C].
Proof.
  apply (addTask_twice Ex.typed_A Ex.typed_A Ex.task_A Scene.task_C).
  - reflexivity.
  - constructor.
Defined.

(** ** Toggle status *)

Lemma alter_live (h : list Task.t) (todo : Ref) (t : Task.t) (f : Task.t → Task.t) :
  h !! todo = Some t → alter f todo h = <[todo := f t]> h.
Proof.
  intros Ht. rewrite list_insert_alter. apply list_alter_ext; [|done].
  intros x Hx. congruence.
Qed.

Lemma insert_live (h : list Task.t) (todo : Ref) (t x : Task.t) :
  h !! todo = Some t → <[todo := x]> h !! todo = Some x.
Proof. intros Ht. apply list_lookup_insert_eq. by eapply lookup_lt_Some. Qed.

Lemma objects_alter_notin (h : list Task.t) (l : list Ref) (f : Task.t → Task.t) (todo : Ref) :
  todo ∉ l → objects (alter f todo h) l = objects h l.
Proof.
  induction l as [|r l IH]; [done|]. intros [Hne Hl]%not_elem_of_cons.
  by rewrite !objects_cons, list_lookup_alter_ne, IH.
Qed.

Lemma tasks_lookup (σ : State) (i : nat) (r : Ref) :
  wf σ → todos σ !! i = Some r → tasks σ !! i = heap σ !! r.
Proof.
  intros Hwf Hi.
  assert (r < length (heap σ)) as Hr.
  { eapply Forall_forall in Hwf; [exact Hwf|]. apply list_elem_of_lookup. eauto. }
  destruct (lookup_lt_is_Some_2 _ _ Hr) as [t Ht]. rewrite Ht.
  by apply (objects_lookup _ _ _ r).
Qed.

Lemma set_heap_same (σ : State) : set_heap (heap σ) σ = σ.
Proof. by destruct σ. Qed.

Lemma set_heap_twice (h h' : list Task.t) (σ : State) :
  set_heap h (set_heap h' σ) = set_heap h σ.
Proof. reflexivity. Qed.

(** The state a toggle of a live object leaves. *)
Lemma toggleTodoStatus_state (σ : State) (todo : Ref) (t : Task.t) :
  heap σ !! todo = Some t →
  state_of (toggleTodoStatus todo σ)
  = set_heap (<[todo := Task.set_is_completed (negb (Task.is_completed t)) t]> (heap σ)) σ.
Proof. intros Ht. unfold toggleTodoStatus. by rewrite Ht. Qed.

(** X3: toggling a task twice, without waiting for either response, gives
    back the local state the first toggle found. *)
Theorem toggleTodoStatus_twice (σ : State) (todo : Ref) :
  state_of (toggleTodoStatus todo (state_of (toggleTodoStatus todo σ))) = σ.
Proof.
  destruct (heap σ !! todo) as [t|] eqn:Ht.
  - rewrite (toggleTodoStatus_state σ todo t Ht).
    erewrite toggleTodoStatus_state; [|simpl; by apply (insert_live _ _ t)].
    simpl. rewrite set_heap_twice, list_insert_insert_eq, negb_involutive.
    rewrite set_is_completed_twice, set_is_completed_same.
    by rewrite (list_insert_id _ _ _ Ht), set_heap_same.
  - unfold toggleTodoStatus. rewrite Ht. simpl. by rewrite Ht.
Qed.

(** X4: a toggle changes one thing in the list: the rows of the toggled
    object show it with the negated flag; every other row shows the task it
    showed, and no row is added, removed or moved. *)
Theorem toggleTodoStatus_frame (σ : State) (todo : Ref) (t : Task.t) :
  wf σ →
  heap σ !! todo = Some t →
  let σ1 := state_of (toggleTodoStatus todo σ) in
  todos σ1 = todos σ ∧
  ∀ i r, todos σ !! i = Some r →
    tasks σ1 !! i
    = if decide (r = todo)
      then Some (Task.set_is_completed (negb (Task.is_completed t)) t)
      else tasks σ !! i.
Proof.
  intros Hwf Ht. cbv zeta. rewrite (toggleTodoStatus_state σ todo t Ht).
  split; [done|]. intros i r Hi.
  assert (wf (set_heap (<[todo:=Task.set_is_completed (negb (Task.is_completed t)) t]> (heap σ)) σ)) as Hwf1.
  { unfold wf. simpl. by rewrite length_insert. }
  rewrite (tasks_lookup _ i r Hwf1 Hi), (tasks_lookup _ i r Hwf Hi). simpl.
  case_decide as Hr.
  - subst r. by apply (insert_live _ _ t).
  - by apply list_lookup_insert_ne.
Qed.

Lemma toggleTodoStatus_frame_witness :
  let σ1 := state_of (toggleTodoStatus 1 Scene.two) in
  tasks σ1 !! 0 = Some Ex.task_A ∧
  tasks σ1 !! 1 = Some (Task.set_is_completed true Scene.task_C).
Proof.
  destruct (toggleTodoStatus_frame Scene.two 1 Scene.task_C) as [_ Hrows].
  - repeat constructor.
  - reflexivity.
  - split; [exact (Hrows 0 0 eq_refl)|exact (Hrows 1 1 eq_refl)].
Defined.

(** X5: when the rejection of a toggle arrives and the list no longer
    holds the toggled object (its entry was deleted, replaced by a saved
    edit or dropped by the fetch), the rollback changes nothing the list
    shows. *)
Theorem toggleTodoStatus_k_detached (σ : State) (todo : Ref) (b : bool)
    (res : Settled Task.t) :
  todo ∉ todos σ →
  tasks (toggleTodoStatus_k todo b res σ) = tasks σ ∧
  render (toggleTodoStatus_k todo b res σ) = render σ.
Proof.
  intros Hout. destruct res as [data|]; [done|].
  assert (tasks (toggleTodoStatus_k todo b Rejected σ) = tasks σ) as Heq.
  { unfold tasks. simpl. by apply objects_alter_notin. }
  split; [exact Heq|]. unfold render. by rewrite Heq.
Qed.

Lemma toggleTodoStatus_k_detached_witness :
  tasks Scene.replaced = [Ex.task_B] ∧
  tasks (toggleTodoStatus_k 0 false Rejected Scene.replaced) = tasks Scene.replaced.
Proof.
  split; [reflexivity|].
  apply (toggleTodoStatus_k_detached Scene.replaced 0 false Rejected).
  vm_compute. intros Hin. apply list_elem_of_In in Hin. destruct Hin as [Hin|[]].
  discriminate Hin.
Defined.

(** X6: two toggles of one task are pending and both requests are
    rejected.  Each rollback assigns the value its own call had found, so
    the rejection that is handled last decides: handled in the order of the
    calls the task is left with the negated flag, handled in the opposite
    order it is left as it was. *)
Theorem toggleTodoStatus_rollback_order (σ : State) (todo : Ref) (t : Task.t) :
  heap σ !! todo = Some t →
  let b := Task.is_completed t in
  let t1 := Task.set_is_completed (negb b) t in
  let σ1 := set_heap (<[todo := t1]> (heap σ)) σ in
  toggleTodoStatus todo σ
  = Await σ1 (PUT (Task.id t) (Whole t1)) (toggleTodoStatus_k todo b) ∧
  toggleTodoStatus todo σ1
  = Await σ (PUT (Task.id t) (Whole t)) (toggleTodoStatus_k todo (negb b)) ∧
  toggleTodoStatus_k todo (negb b) Rejected (toggleTodoStatus_k todo b Rejected σ) = σ1 ∧
  toggleTodoStatus_k todo b Rejected (toggleTodoStatus_k todo (negb b) Rejected σ) = σ.
Proof.
  intros Ht. cbv zeta. split; [|split; [|split]].
  - unfold toggleTodoStatus. by rewrite Ht.
  - unfold toggleTodoStatus. simpl. rewrite (insert_live _ _ t _ Ht). simpl.
    rewrite negb_involutive, list_insert_insert_eq.
    rewrite !set_is_completed_twice, set_is_completed_same, set_heap_twice.
    by rewrite (list_insert_id _ _ _ Ht), set_heap_same.
  - unfold toggleTodoStatus_k. simpl. rewrite list_alter_alter_eq.
    by rewrite (alter_live _ _ t _ Ht).
  - unfold toggleTodoStatus_k. simpl. rewrite list_alter_alter_eq.
    rewrite (alter_live _ _ t _ Ht). simpl.
    rewrite set_is_completed_twice, set_is_completed_same.
    rewrite (list_insert_id _ _ _ Ht). by destruct σ.
Qed.

Lemma toggleTodoStatus_rollback_order_witness :
  let σ' := toggleTodoStatus_k 0 true Rejected (toggleTodoStatus_k 0 false Rejected Ex.one) in
  (Task.is_completed <$> tasks Ex.one) = [false] ∧
  (Task.is_completed <$> tasks σ') = [true].
Proof.
  destruct (toggleTodoStatus_rollback_order Ex.one 0 Ex.task_A) as (_ & _ & Hin & _).
  - reflexivity.
  - cbv zeta in *. split; [reflexivity|]. simpl negb in Hin.
    exact (eq_ind_r (λ σ, (Task.is_completed <$> tasks σ) = [true]) eq_refl Hin).
Defined.

(** ** Delete task *)

Lemma filter_twice {A : Type} (f : A → bool) (l : list A) :
  List.filter f (List.filter f l) = List.filter f l.
Proof.
  induction l as [|x l IH]; simpl; [done|].
  destruct (f x) eqn:Hx; simpl; [|done]. by rewrite Hx, IH.
Qed.

Lemma filter_swap {A : Type} (f g : A → bool) (l : list A) :
  List.filter f (List.filter g l) = List.filter g (List.filter f l).
Proof.
  induction l as [|x l IH]; simpl; [done|].
  destruct (f x) eqn:Hf, (g x) eqn:Hg; simpl; rewrite ?Hf, ?Hg; by rewrite IH.
Qed.

(** X7: a fulfilled delete removes exactly the entries whose id is the
    deleted one: the others stay, in their order, and the objects, the
    "add" draft and the edit session are not touched. *)
Theorem deleteTask_k_keeps_others (σ : State) (id : Id) :
  let σ' := deleteTask_k id (Fulfilled ()) σ in
  tasks σ' = List.filter (fun t => negb (Task.id t =? id)%Z) (tasks σ) ∧
  (∀ t, t ∈ tasks σ → Task.id t ≠ id → t ∈ tasks σ') ∧
  heap σ' = heap σ ∧ newTaskTitle σ' = newTaskTitle σ ∧
  editingTaskId σ' = editingTaskId σ ∧ editingTitle σ' = editingTitle σ.
Proof.
  cbv zeta. pose proof (objects_filter (heap σ) id (todos σ)) as Heq.
  split; [exact Heq|]. split; [|done].
  intros t Hin Hne. unfold tasks at 1. simpl. rewrite Heq.
  apply list_elem_of_In, filter_In. split; [by apply list_elem_of_In|].
  apply negb_true_iff. by apply Z.eqb_neq.
Qed.

(** X8: fulfilled deletes can be handled in any order and any number of
    times: deleting an id twice is deleting it once, and deletes of two ids
    give the same state in either order. *)
Theorem deleteTask_k_order (σ : State) (id id' : Id) :
  deleteTask_k id (Fulfilled ()) (deleteTask_k id (Fulfilled ()) σ)
  = deleteTask_k id (Fulfilled ()) σ ∧
  deleteTask_k id (Fulfilled ()) (deleteTask_k id' (Fulfilled ()) σ)
  = deleteTask_k id' (Fulfilled ()) (deleteTask_k id (Fulfilled ()) σ).
Proof.
  unfold deleteTask_k, set_todos. simpl. split.
  - by rewrite filter_twice.
  - by rewrite filter_swap.
Qed.

Lemma render_view (σ : State) (id : Id) :
  editingTaskId σ = Some id →
  (∀ t, t ∈ tasks σ → Task.id t ≠ id) →
  render σ = view_row <$> tasks σ.
Proof.
  intros Hid Hall. unfold render. apply list_fmap_ext.
  intros i t Hi. unfold row, view_row. rewrite Hid.
  case_decide as Heq; [|done]. injection Heq as ->.
  exfalso. apply (Hall t); [|done]. apply list_elem_of_lookup. eauto.
Qed.

Lemma filter_is_edit_view (l : list Task.t) :
  List.filter is_edit (view_row <$> l) = [].
Proof. by induction l as [|t l IH]. Qed.

(** X9: deleting the task that is being edited does not close the edit
    session: the session keeps the id and the draft, and no row of the list
    is in edit mode any more. *)
Theorem deleteTask_k_under_edit (σ : State) (id : Id) :
  editingTaskId σ = Some id →
  let σ' := deleteTask_k id (Fulfilled ()) σ in
  editingTaskId σ' = Some id ∧ editingTitle σ' = editingTitle σ ∧
  render σ' = view_row <$> tasks σ' ∧
  List.filter is_edit (render σ') = [].
Proof.
  intros Hid. cbv zeta.
  assert (render (deleteTask_k id (Fulfilled ()) σ)
          = view_row <$> tasks (deleteTask_k id (Fulfilled ()) σ)) as Hview.
  { apply (render_view _ id); [done|]. intros t Hin.
    unfold tasks in Hin. simpl in Hin. rewrite objects_filter in Hin.
    apply list_elem_of_In, filter_In in Hin as [_ Hne].
    apply negb_true_iff in Hne. by apply Z.eqb_neq. }
  split; [done|]. split; [done|]. split; [exact Hview|].
  rewrite Hview. apply filter_is_edit_view.
Qed.

Lemma deleteTask_k_under_edit_witness :
  let σ' := deleteTask_k 2 (Fulfilled ()) Scene.editing_C in
  render Scene.editing_C = [ViewMode false (js "A"); EditMode false (js "C!")] ∧
  editingTaskId σ' = Some 2%Z ∧ render σ' = [ViewMode false (js "A")].
Proof.
  destruct (deleteTask_k_under_edit Scene.editing_C 2) as (Hid & _ & Hview & _).
  - reflexivity.
  - exact (conj eq_refl (conj Hid Hview)).
Defined.

(** ** Edit task *)





(** X11: starting an edit, retyping the draft and cancelling gives back
    exactly the state before, when no edit session was open. *)
Theorem edit_cancel_roundtrip (σ : State) (todo : Ref) (draft : JsString) :
  editingTaskId σ = None →
  editingTitle σ = [] →
  cancelEdit (set_editingTitle draft (startEditing todo σ)) = σ.
Proof.
  intros Hid Htitle. unfold startEditing.
  destruct σ as [h l d i ti]. simpl in *. subst.
  by destruct (h !! todo).
Qed.

Lemma edit_cancel_roundtrip_witness :
  cancelEdit Scene.editing_C = Scene.two.
Proof. by apply (edit_cancel_roundtrip Scene.two 1 (js "C!")). Defined.

(** X12: starting to edit a row while another edit is open replaces the
    session: the result is the one of starting from the state before the
    first edit, so the earlier draft is gone. *)
Theorem startEditing_replaces (σ : State) (first todo : Ref) (t : Task.t)
    (draft : JsString) :
  heap σ !! todo = Some t →
  startEditing todo (set_editingTitle draft (startEditing first σ))
  = startEditing todo σ ∧
  editingTaskId (startEditing todo σ) = Some (Task.id t) ∧
  editingTitle (startEditing todo σ) = Task.title t.
Proof.
  intros Ht. unfold startEditing at 1 3 4 5.
  assert (heap (set_editingTitle draft (startEditing first σ)) = heap σ) as ->.
  { unfold startEditing. by destruct (heap σ !! first). }
  rewrite Ht. split; [|done].
  unfold startEditing. by destruct (heap σ !! first).
Qed.

Lemma startEditing_replaces_witness :
  editingTaskId (startEditing 0 Scene.editing_C) = Some 1%Z ∧
  editingTitle (startEditing 0 Scene.editing_C) = js "A".
Proof.
  destruct (startEditing_replaces Scene.two 1 0 Ex.task_A (js "C!"))
    as (Heq & Hid & Htitle).
  - reflexivity.
  - unfold Scene.editing_C. rewrite Heq. exact (conj Hid Htitle).
Defined.

(** X13: [saveEdit] reads the completion flag from the task object at the
    call, so while a toggle of the task is pending the PUT of the save
    carries the negated flag, whether or not the toggle is rolled back
    later. *)
Theorem saveEdit_after_toggle (σ : State) (todo : Ref) (t : Task.t) :
  heap σ !! todo = Some t →
  put_body (saveEdit todo (state_of (toggleTodoStatus todo σ)))
  = Some (Fields (editingTitle σ) (Task.description t)
            (negb (Task.is_completed t))).
Proof.
  intros Ht. rewrite (toggleTodoStatus_state σ todo t Ht).
  unfold saveEdit. simpl. by rewrite (insert_live _ _ t _ Ht).
Qed.

Lemma saveEdit_after_toggle_witness :
  put_body (saveEdit 1 (state_of (toggleTodoStatus 1 Scene.editing_C)))
  = Some (Fields (js "C!") (Some (js "later")) true).
Proof. by apply (saveEdit_after_toggle Scene.editing_C 1 Scene.task_C). Defined.

(** ** What events and responses leave alone *)


Lemma objects_elem (h : list Task.t) (l : list Ref) (r : Ref) (t : Task.t) :
  r ∈ l → h !! r = Some t → t ∈ objects h l.
Proof.
  intros Hin Ht. induction l as [|r' l IH]; [by apply elem_of_nil in Hin|].
  rewrite objects_cons. apply elem_of_cons in Hin as [->|Hin].
  - rewrite Ht. by left.
  - destruct (h !! r'); [right|]; by apply IH.
Qed.


(** X15: a PUT or DELETE that an event of the page issues addresses a task
    of the list: the id in its path is the id of a task the list holds when
    the handler is called. *)
Theorem request_target_listed (e : Event) (σ : State) (id : Id) :
  bound e σ →
  request_target (dispatch e σ) = Some id →
  ∃ t, t ∈ tasks σ ∧ Task.id t = id.
Proof.
  intros Hb Hreq. destruct e as [s| |todo|s|todo| |todo|todo c]; simpl in *;
    try discriminate Hreq.
  - unfold addTask in Hreq. by destruct (trim _).
  - unfold toggleTodoStatus in Hreq.
    destruct (heap σ !! todo) as [t|] eqn:Ht; [|done].
    injection Hreq as <-. exists t. split; [|done]. by apply (objects_elem _ _ todo).
  - destruct Hb as [Hin _]. unfold saveEdit in Hreq.
    destruct (heap σ !! todo) as [t|] eqn:Ht; [|done].
    injection Hreq as <-. exists t. split; [|done]. by apply (objects_elem _ _ todo).
  - destruct Hb as [Hin _].
    destruct (heap σ !! todo) as [t|] eqn:Ht; [|done].
    destruct c; [|done]. injection Hreq as <-.
    exists t. split; [|done]. by apply (objects_elem _ _ todo).
Qed.

Lemma request_target_listed_witness :
  request_target (dispatch (ClickDelete 1 true) Scene.two) = Some 2%Z ∧
  ∃ t, t ∈ tasks Scene.two ∧ Task.id t = 2%Z.
Proof.
  split; [reflexivity|].
  apply (request_target_listed (ClickDelete 1 true) Scene.two 2).
  - split; [right; left|]. intros (t & _ & Hid). discriminate Hid.
  - reflexivity.
Defined.

(** X16: no handler assigns the id, the title or the description of a task
    object: whatever events and responses follow, in whatever order, an
    object of the store is still there with these three fields as they
    were.  A title on the page changes only by an entry being replaced. *)
Theorem task_fields_stable (w w' : World) (r : Ref) (t : Task.t) :
  reachable w →
  rtc step w w' →
  heap (state w) !! r = Some t →
  ∃ t', heap (state w') !! r = Some t' ∧ Task.id t' = Task.id t ∧
        Task.title t' = Task.title t ∧ Task.description t' = Task.description t.
Proof. intros Hr Hsteps Ht. by apply (reachable_grows w w' Hr Hsteps). Qed.

Lemma task_fields_stable_witness :
  let w := {| state := Ex.one; inflight := [] |} in
  ∃ t', heap (state (after (dispatch (ChangeCheckbox 0) (state w)) w)) !! 0 = Some t' ∧
        Task.id t' = 1%Z ∧ Task.title t' = js "A" ∧ Task.description t' = None.
Proof.
  cbv zeta.
  apply (task_fields_stable {| state := Ex.one; inflight := [] |}
           (after (dispatch (ChangeCheckbox 0) Ex.one) {| state := Ex.one; inflight := [] |})
           0 Ex.task_A).
  - exact reachable_one.
  - apply rtc_once.
    apply (step_event (ChangeCheckbox 0) {| state := Ex.one; inflight := [] |}).
    simpl. by left.
  - reflexivity.
Defined.

(** X17: a settled save or toggle, fulfilled or rejected, never changes
    the number of rows. *)
Theorem settled_keeps_rows (σ : State) (todo : Ref) (b : bool)
    (res : Settled Task.t) :
  wf σ →
  length (tasks (saveEdit_k todo res σ)) = length (tasks σ) ∧
  length (tasks (toggleTodoStatus_k todo b res σ)) = length (tasks σ).
Proof.
  intros Hwf.
  assert (wf (saveEdit_k todo res σ)) as Hsave by by apply sound_saveEdit_k.
  assert (wf (toggleTodoStatus_k todo b res σ)) as Htoggle
    by by apply sound_toggleTodoStatus_k.
  unfold tasks.
  rewrite (objects_length _ _ Hsave), (objects_length _ _ Htoggle),
    (objects_length _ _ Hwf).
  split.
  - destruct res as [data|]; [|done]. unfold saveEdit_k.
    destruct (heap σ !! todo); [|done].
    destruct (findIndex _ _ _); [|done]. simpl. apply length_insert.
  - by destruct res.
Qed.

Lemma settled_keeps_rows_witness :
  length (tasks (saveEdit_k 1 (Fulfilled Ex.task_B) Scene.two)) = 2 ∧
  length (tasks (toggleTodoStatus_k 1 true Rejected Scene.two)) = 2.
Proof.
  assert (wf Scene.two) as Hwf by repeat constructor.
  split.
  - by apply (settled_keeps_rows Scene.two 1 true (Fulfilled Ex.task_B)).
  - by apply (settled_keeps_rows Scene.two 1 true Rejected).
Defined.

(** X18: the two drafts are independent of the other features.  No settled
    request touches the "add" draft except a fulfilled create, and none
    touches the edit session except a fulfilled save. *)
Theorem settled_keeps_drafts (σ : State) (todo : Ref) (id : Id) (b : bool)
    (res : Settled Task.t) (ack : Settled unit) (fetched : Settled (list Task.t)) :
  (newTaskTitle (saveEdit_k todo res σ) = newTaskTitle σ ∧
   newTaskTitle (toggleTodoStatus_k todo b res σ) = newTaskTitle σ ∧
   newTaskTitle (deleteTask_k id ack σ) = newTaskTitle σ ∧
   newTaskTitle (onMounted_k fetched σ) = newTaskTitle σ) ∧
  (editingTaskId (addTask_k res σ) = editingTaskId σ ∧
   editingTitle (addTask_k res σ) = editingTitle σ) ∧
  (editingTaskId (toggleTodoStatus_k todo b res σ) = editingTaskId σ ∧
   editingTitle (toggleTodoStatus_k todo b res σ) = editingTitle σ) ∧
  (editingTaskId (deleteTask_k id ack σ) = editingTaskId σ ∧
   editingTitle (deleteTask_k id ack σ) = editingTitle σ) ∧
  (editingTaskId (onMounted_k fetched σ) = editingTaskId σ ∧
   editingTitle (onMounted_k fetched σ) = editingTitle σ).
Proof.
  repeat split; try (by destruct res); try (by destruct ack);
    try (by destruct fetched).
  destruct res as [data|]; [|done]. unfold saveEdit_k.
  destruct (heap σ !! todo); [|done]. by destruct (findIndex _ _ _).
Qed.


